(** * Monte Carlo cycle-time simulator

    A shallow embedding of [src/main.py] (class [MonteCarloApp]) and of the
    NumPy routines its simulation calls, followed by the properties of the
    simulation-and-aggregation engine, [MonteCarloApp.run_simulation].

    Numbers.  Python integers are [Z].  The cycle times and everything
    computed from them are float64 in the program; here they are exact
    rationals [Q], compared with [==] and [<=] of [QArith], so rounding of
    the floating-point operations is outside the model.

    Randomness.  NumPy's global generator is a state of an arbitrary type
    [G] with one primitive, the bounded integer draw [randint]; the model
    threads it explicitly. *)

From Stdlib Require Import QArith Qround Qabs ZArith Lia Lqa DecimalString.
From stdpp Require Import gmap strings list sorting pretty.

Local Open Scope Z_scope.

(** ** Rationals as a stdpp carrier *)

#[global] Instance Q_inhabited : Inhabited Q := populate 0%Q.

#[global] Instance Qle_decision (x y : Q) : Decision (x <= y)%Q :=
  match Qlt_le_dec y x with
  | left H => right (Qlt_not_le _ _ H)
  | right H => left H
  end.

(** ** Python values and exceptions *)

Inductive exn : Type :=
| ValueError
| IndexError
| KeyError.

Inductive result (A : Type) : Type :=
| Ok (a : A)
| Raise (e : exn).
Arguments Ok {A} a.
Arguments Raise {A} e.

#[global] Instance result_ret : MRet result := λ A a, Ok a.

#[global] Instance result_bind : MBind result := λ A B k r,
  match r with
  | Ok a => k a
  | Raise e => Raise e
  end.

(** [len(a)] *)
Definition len {A} (a : list A) : Z := Z.of_nat (length a).

(** [a[start:]] for a Python integer [start]: a negative start counts from
    the end, and the start is then clamped into [0, len(a)]. *)
Definition slice_from {A} (a : list A) (start : Z) : list A :=
  let n := len a in
  let s := if start <? 0 then Z.max (start + n) 0 else Z.min start n in
  drop (Z.to_nat s) a.

(** [a[i]] for a Python integer index: negative indices count from the end;
    out of range raises IndexError. *)
Definition getitem {A} (a : list A) (i : Z) : result A :=
  let j := if i <? 0 then i + len a else i in
  if j <? 0 then Raise IndexError
  else match a !! Z.to_nat j with
       | Some x => Ok x
       | None => Raise IndexError
       end.

(** [int(s)] on a string of decimal digits; anything else raises
    ValueError.  (Signs, blanks and underscores, which Python also accepts,
    do not occur in the program's labels.) *)
Definition int (s : string) : result Z :=
  match NilEmpty.uint_of_string s with
  | Some d => Ok (Z.of_uint d)
  | None => Raise ValueError
  end.

(** [s[1:]] on a string. *)
Definition str_tail (s : string) : string :=
  match s with
  | EmptyString => EmptyString
  | String _ s' => s'
  end.

(** [f"P{p}"] *)
Definition fmt_label (p : Z) : string := "P" +:+ pretty p.

(** Rounding to the nearest integer, ties to even: the rounding of
    Python's fixed-point float formatting. *)
Definition round_half_even (q : Q) : Z :=
  let f := Qfloor q in
  match (q - inject_Z f ?= 1 # 2)%Q with
  | Lt => f
  | Gt => f + 1
  | Eq => if Z.even f then f else f + 1
  end.

Definition two_digits (d : Z) : string :=
  if d <? 10 then "0" +:+ pretty d else pretty d.

(** [f"{val:.2f}"] *)
Definition format_2f (val : Q) : string :=
  let c := round_half_even (Qabs val * 100)%Q in
  (if Qle_bool 0 val then "" else "-")
    +:+ pretty (c / 100) +:+ "." +:+ two_digits (c mod 100).

(** ** NumPy *)

Module np.

(** [np.zeros((rows, cols))] *)
Definition zeros (rows cols : Z) : list (list Q) :=
  replicate (Z.to_nat rows) (replicate (Z.to_nat cols) 0%Q).

(** [np.cumsum(a)]: [out[0] = a[0]], [out[i] = out[i-1] + a[i]]. *)
Fixpoint cumsum_from (acc : Q) (a : list Q) : list Q :=
  match a with
  | [] => []
  | x :: a' => let s := (acc + x)%Q in s :: cumsum_from s a'
  end.

Definition cumsum (a : list Q) : list Q :=
  match a with
  | [] => []
  | x :: a' => x :: cumsum_from x a'
  end.

(** [m[:, pos]]: column [pos] of a two-dimensional array. *)
Fixpoint column (m : list (list Q)) (pos : nat) : result (list Q) :=
  match m with
  | [] => Ok []
  | r :: m' =>
      match r !! pos with
      | None => Raise IndexError
      | Some x => c ← column m' pos; Ok (x :: c)
      end
  end.

(** [_lerp(a, b, t)] of [numpy.lib.function_base]. *)
Definition lerp (a b t : Q) : Q :=
  let diff_b_a := (b - a)%Q in
  if Qle_bool (1 # 2) t then (b - diff_b_a * (1 - t))%Q
  else (a + diff_b_a * t)%Q.

(** [np.percentile(arr, p)] for a one-dimensional array and a scalar
    [p], with the default method, "linear": the virtual index
    [(n - 1) * (p / 100)] is split into the index below it, the index
    after that one (both set to the last index, written [-1], when the
    virtual index reaches it) and the remainder [gamma]; the result
    interpolates between the two order statistics.  NumPy reaches the
    order statistics by a partial sort; a full sort gives the same
    elements at those positions.  An empty array, for which NumPy
    yields nan, is an IndexError here. *)
Definition percentile (arr : list Q) (p : Z) : result Q :=
  let q := (inject_Z p / 100)%Q in
  if negb (Qle_bool 0 q && Qle_bool q 1) then Raise ValueError
  else
    let n := len arr in
    let virtual_index := (inject_Z (n - 1) * q)%Q in
    let above := Qle_bool (inject_Z (n - 1)) virtual_index in
    let below := negb (Qle_bool 0 virtual_index) in
    let previous_index :=
      if below then 0 else if above then -1 else Qfloor virtual_index in
    let next_index :=
      if below then 0 else if above then -1 else Qfloor virtual_index + 1 in
    let sorted := merge_sort Qle arr in
    previous ← getitem sorted previous_index;
    next ← getitem sorted next_index;
    let gamma := (virtual_index - inject_Z previous_index)%Q in
    Ok (lerp previous next gamma).

End np.

(** ** The application object *)

(** The four check boxes of [self.percentiles], a dict with the fixed keys
    "P50", "P80", "P85", "P90" and a BooleanVar under each. *)
Record pct_vars : Type := PctVars {
  P50 : bool;
  P80 : bool;
  P85 : bool;
  P90 : bool
}.

(** [self.percentiles.items()], in insertion order. *)
Definition items (v : pct_vars) : list (string * bool) :=
  [("P50", P50 v); ("P80", P80 v); ("P85", P85 v); ("P90", P90 v)].

(** A cell of a table row: the position is an int, a forecast is the
    string its value was formatted to. *)
Inductive cell : Type :=
| CInt (z : Z)
| CStr (s : string).

(** What the plot is drawn from: the positions and, per label, the curve
    of forecast values ([plot_data]). *)
Record figure : Type := Figure {
  fig_positions : list Z;
  fig_curves : gmap string (list Q)
}.

Record MonteCarloApp : Type := App {
  cycle_times : option (list Q);   (* None until a file is loaded *)
  num_backlog : Z;
  num_sims : Z;
  sample_size : Z;
  percentiles : pct_vars;
  tree : list (list cell);         (* rows of the output table *)
  canvas : option figure
}.

(** [MonteCarloApp.__init__] *)
Definition init : MonteCarloApp :=
  {| cycle_times := None;
     num_backlog := 10;
     num_sims := 10000;
     sample_size := 1000;
     percentiles := PctVars true false false false;
     tree := [];
     canvas := None |}.

(** The application object with another table, or another plot. *)
Definition with_tree (app : MonteCarloApp) (t : list (list cell)) : MonteCarloApp :=
  App (cycle_times app) (num_backlog app) (num_sims app) (sample_size app)
      (percentiles app) t (canvas app).

Definition with_canvas (app : MonteCarloApp) (c : option figure) : MonteCarloApp :=
  App (cycle_times app) (num_backlog app) (num_sims app) (sample_size app)
      (percentiles app) (tree app) c.

(** How [run_simulation] ends: with one of its three message boxes and an
    early return, or after filling the table and drawing the plot.  In the
    words of the specification, the second box is InvalidConfig and the
    third InsufficientData. *)
Inductive outcome : Type :=
| NoFile                                  (* "Please upload an Excel or CSV file first." *)
| InvalidConfig                           (* "Invalid N or simulation count." *)
| InsufficientData (have : Z) (N : Z)     (* "Not enough data in selected history size (have) for N=N" *)
| Completed.

(** The effective history: line 107 of [run_simulation]. *)
Definition effective_history (cycle_times : list Q) (hist_n : Z) : list Q :=
  if hist_n <? len cycle_times then slice_from cycle_times (- hist_n)
  else cycle_times.

(** [plot_data[key].append(val)] *)
Definition dict_append (plot_data : gmap string (list Q)) (key : string) (val : Q)
  : result (gmap string (list Q)) :=
  match plot_data !! key with
  | Some values => Ok (<[key := values ++ [val]]> plot_data)
  | None => Raise KeyError
  end.

(** [{f"P{p}": [] for p in requested_pcts}] *)
Definition plot_data_init (requested_pcts : list Z) : gmap string (list Q) :=
  foldl (λ d p, <[fmt_label p := []]> d) ∅ requested_pcts.

(** [[int(p[1:]) for p, var in self.percentiles.items() if var.get()]] *)
Fixpoint requested (its : list (string * bool)) : result (list Z) :=
  match its with
  | [] => Ok []
  | (p, var) :: its' =>
      if var then
        n ← int (str_tail p); ns ← requested its'; Ok (n :: ns)
      else requested its'
  end.

Section Simulation.

(** NumPy's global generator: its state, and a draw of an integer that
    is uniform on [0, n) and independent of the earlier draws. *)
Context {G : Type}.
Variable randint : nat → G → nat * G.

(** The program's state: the application object and the generator. *)
Definition state : Type := MonteCarloApp * G.

Definition M (A : Type) : Type := state → result A * state.

#[global] Instance M_ret : MRet M := λ A a σ, (Ok a, σ).

#[global] Instance M_bind : MBind M := λ A B k m σ,
  match m σ with
  | (Ok a, σ') => k a σ'
  | (Raise e, σ') => (Raise e, σ')
  end.

Definition lift {A} (r : result A) : M A := λ σ, (r, σ).

Definition self : M MonteCarloApp := λ σ, (Ok σ.1, σ).

Definition set_tree (t : list (list cell)) : M unit :=
  λ '(app, g), (Ok (), (with_tree app t, g)).

Definition set_canvas (c : option figure) : M unit :=
  λ '(app, g), (Ok (), (with_canvas app c, g)).

(** [for x in l: s = body(x, s)] *)
Fixpoint for_each {A S} (l : list A) (body : A → S → M S) (s : S) : M S :=
  match l with
  | [] => mret s
  | x :: l' => s' ← body x s; for_each l' body s'
  end.

(** [range(n)] *)
Definition range (n : Z) : list nat := seq 0 (Z.to_nat n).

(** [self.tree.insert("", "end", values=row)] *)
Definition tree_insert (row : list cell) : M unit :=
  app ← self; set_tree (tree app ++ [row]).

(** One bounded draw from the generator. *)
Definition rand (n : nat) : M nat :=
  λ '(app, g), let '(i, g') := randint n g in (Ok i, (app, g')).

(** [size] bounded draws, one after the other. *)
Fixpoint draw (n size : nat) : M (list nat) :=
  match size with
  | O => mret []
  | S size' => i ← rand n; idx ← draw n size'; mret (i :: idx)
  end.

(** [a[idx]] for an array of indices. *)
Fixpoint take_indices (a : list Q) (idx : list nat) : result (list Q) :=
  match idx with
  | [] => Ok []
  | i :: idx' =>
      match a !! i with
      | None => Raise IndexError
      | Some x => xs ← take_indices a idx'; Ok (x :: xs)
      end
  end.

(** [np.random.choice(a, size=size, replace=True)]: with an empty
    population and a positive size it raises ValueError; otherwise it
    draws [size] indices below [len(a)] and returns the elements there. *)
Definition choice (a : list Q) (size : Z) : M (list Q) :=
  if size <? 0 then lift (Raise ValueError)
  else if (len a =? 0) && negb (size =? 0) then lift (Raise ValueError)
  else idx ← draw (length a) (Z.to_nat size); lift (take_indices a idx).

(** Lines 113-115: one trial. *)
Definition trial (history : list Q) (N : Z) (i : nat) (sim_matrix : list (list Q))
  : M (list (list Q)) :=
  sample ← choice history N;
  mret (<[i := np.cumsum sample]> sim_matrix).

(** Lines 128-131: one percentile of one position. *)
Definition forecast (sim_matrix : list (list Q)) (pos : nat) (p : Z)
    (acc : list cell * gmap string (list Q))
  : M (list cell * gmap string (list Q)) :=
  let '(row, plot_data) := acc in
  col ← lift (np.column sim_matrix pos);
  val ← lift (np.percentile col p);
  plot_data' ← lift (dict_append plot_data (fmt_label p) val);
  mret (row ++ [CStr (format_2f val)], plot_data').

(** Lines 126-132: the row of one position. *)
Definition position (sim_matrix : list (list Q)) (requested_pcts : list Z)
    (pos : nat) (plot_data : gmap string (list Q))
  : M (gmap string (list Q)) :=
  acc ← for_each requested_pcts (forecast sim_matrix pos)
                 ([CInt (Z.of_nat pos + 1)], plot_data);
  tree_insert acc.1;;
  mret acc.2.

(** [MonteCarloApp.run_simulation] *)
Definition run_simulation : M outcome :=
  app ← self;
  match cycle_times app with
  | None => mret NoFile
  | Some cycle_times =>
      let N := num_backlog app in
      let sims := num_sims app in
      let hist_n := sample_size app in
      if (N <=? 0) || negb ((10000 <=? sims) && (sims <=? 30000)) then
        mret InvalidConfig
      else
        let history := effective_history cycle_times hist_n in
        if len history <? N then mret (InsufficientData (len history) N)
        else
          sim_matrix ← for_each (range sims) (trial history N) (np.zeros sims N);
          requested_pcts ← lift (requested (items (percentiles app)));
          set_tree [];;
          plot_data ← for_each (range N) (position sim_matrix requested_pcts)
                               (plot_data_init requested_pcts);
          set_canvas (Some (Figure (map Z.of_nat (seq 1 (Z.to_nat N))) plot_data));;
          mret Completed
  end.

End Simulation.

(** ** Definitions for the properties *)

(** "The last [k] elements" of a sequence, in the words of the
    specification. *)
Definition last_elements {A} (a : list A) (k : nat) : list A :=
  drop (length a - k) a.


(** The virtual index of [np.percentile] and the interpolation between the
    two order statistics around a rank [r] of a sorted sequence [s].  At
    the last rank the upper neighbour is missing and has weight zero. *)
Definition virtual_index (n p : Z) : Q := (inject_Z (n - 1) * (inject_Z p / 100))%Q.

Definition interp (s : list Q) (r : Q) : Q :=
  let f := Z.to_nat (Qfloor r) in
  (s !!! f + (s !!! S f - s !!! f) * (r - inject_Z (Qfloor r)))%Q.



(** The value of [np.percentile] where it returns one. *)
Definition pctl (arr : list Q) (p : Z) : Q :=
  match np.percentile arr p with
  | Ok v => v
  | Raise _ => 0%Q
  end.


(** Column [pos] of the trial matrix, the forecast for a position and a
    percentile, the table row of a position, and the curves after the
    forecasts of one more position. *)
Definition col (m : list (list Q)) (pos : nat) : list Q := map (λ r, r !!! pos) m.

Definition fc (m : list (list Q)) (pos : nat) (p : Z) : Q := pctl (col m pos) p.

Definition table_row (m : list (list Q)) (pcts : list Z) (pos : nat) : list cell :=
  CInt (Z.of_nat pos + 1) :: map (λ p, CStr (format_2f (fc m pos p))) pcts.

Definition add_forecasts (m : list (list Q)) (pcts : list Z) (pos : nat)
    (plot_data : gmap string (list Q)) : gmap string (list Q) :=
  foldl (λ d p, alter (λ values, values ++ [fc m pos p]) (fmt_label p) d) plot_data pcts.

(** The percentiles of the ticked boxes. *)
Definition pcts_of (v : pct_vars) : list Z :=
  (if P50 v then [50] else []) ++ (if P80 v then [80] else [])
  ++ (if P85 v then [85] else []) ++ (if P90 v then [90] else []).

(** The curves after the forecasts of the first [n] positions. *)
Definition curves (m : list (list Q)) (pcts : list Z) (n : nat) : gmap string (list Q) :=
  foldl (λ d pos, add_forecasts m pcts pos d) (plot_data_init pcts) (seq 0 n).

(** A valid input: a loaded file, a positive backlog size, a trial count
    within bounds and enough history in the window. *)
Definition valid_input (app : MonteCarloApp) (loaded : list Q) : Prop :=
  cycle_times app = Some loaded
  ∧ 1 <= num_backlog app
  ∧ 10000 <= num_sims app <= 30000
  ∧ num_backlog app <= len (effective_history loaded (sample_size app)).

Section Draws.

Context {G : Type}.
Variable randint : nat → G → nat * G.

(** The generator after [k] draws with bound [n], and the indices that
    [size] successive draws return. *)
Definition after (n k : nat) (g : G) : G :=
  Nat.iter k (λ g', (randint n g').2) g.

Fixpoint draws (n size : nat) (g : G) : list nat :=
  match size with
  | O => []
  | S size' => (randint n g).1 :: draws n size' (randint n g).2
  end.


(** The sample of one call of [choice]. *)
Definition sample_of (history : list Q) (N : nat) (g : G) : list Q :=
  map (λ i, history !!! i) (draws (length history) N g).

(** The rows that [T] successive trials compute. *)
Fixpoint rows_of (history : list Q) (N T : nat) (g : G) : list (list Q) :=
  match T with
  | O => []
  | S T' =>
      np.cumsum (sample_of history N g)
        :: rows_of history N T' (after (length history) N g)
  end.

(** The trial matrix of a run that starts with generator state [g], and
    the application object the run leaves behind. *)
Definition matrix_of (app : MonteCarloApp) (loaded : list Q) (g : G)
  : list (list Q) :=
  rows_of (effective_history loaded (sample_size app))
          (Z.to_nat (num_backlog app)) (Z.to_nat (num_sims app)) g.

Definition final (app : MonteCarloApp) (m : list (list Q)) : MonteCarloApp :=
  let N := Z.to_nat (num_backlog app) in
  let pcts := pcts_of (percentiles app) in
  with_canvas (with_tree app (map (table_row m pcts) (seq 0 N)))
              (Some (Figure (map Z.of_nat (seq 1 N)) (curves m pcts N))).

End Draws.

(** ** A concrete generator and input

    A linear congruential generator and the sample of the program's help
    text, for closed instances of the theorems. *)

Definition lcg (n : nat) (g : Z) : nat * Z :=
  (Z.to_nat ((g / 65536) mod Z.of_nat n), (1103515245 * g + 12345) mod 2147483648).

Definition sample_history : list Q := [6; 8; 7; 5; 9]%Q.

Definition demo (N sims hist_n : Z) (v : pct_vars) : MonteCarloApp :=
  App (Some sample_history) N sims hist_n v [] None.

Definition boxes : pct_vars := PctVars true true false true.

Definition demo_app : MonteCarloApp := demo 3 10000 1000 boxes.

(** ** The table widget and the file loader

    The remaining stateful parts of [MonteCarloApp]: the columns of the
    table that [_build_ui] creates, and [load_excel]. *)

(** [["Position"] + list(self.percentiles.keys())]: the columns of the
    Treeview, fixed when the window is built; each heading shows the name
    of its column. *)
Definition columns (v : pct_vars) : list string :=
  "Position" :: map fst (items v).

(** What a Treeview row shows: its values are laid under the columns in
    order, and a column for which the row has no value shows nothing. *)
Definition shown (cols : list string) (row : list cell) : list (string * option cell) :=
  imap (λ i heading, (heading, row !! i)) cols.

(** [c.lower()] on one ASCII character, [s.lower()] and
    [s.endswith(suffix)]. *)
Definition lower_ascii (c : Ascii.ascii) : Ascii.ascii :=
  let n := Ascii.nat_of_ascii c in
  if (65 <=? n)%nat && (n <=? 90)%nat then Ascii.ascii_of_nat (n + 32) else c.

Fixpoint lower (s : string) : string :=
  match s with
  | EmptyString => EmptyString
  | String c s' => String (lower_ascii c) (lower s')
  end.

Fixpoint endswith (s suffix : string) : bool :=
  String.eqb s suffix
  || match s with
     | EmptyString => false
     | String _ s' => endswith s' suffix
     end.

(** A pandas column is numeric or not; a missing value is [None]. *)
Inductive column : Type :=
| NumCol (values : list (option Q))
| OtherCol (values : list (option string)).

Module pandas.

(** [df.select_dtypes(include=[np.number])] *)
Definition select_dtypes_number (df : list column) : list (list (option Q)) :=
  omap (λ c, match c with NumCol values => Some values | OtherCol _ => None end) df.

(** [df.empty]: no column, or no row. *)
Definition empty (df : list (list (option Q))) : bool :=
  match df with
  | [] => true
  | values :: _ => bool_decide (values = [])
  end.

(** [series.dropna().values] *)
Definition dropna (values : list (option Q)) : list Q := omap id values.

End pandas.

(** The window: the application object and the text of [self.lbl_file]. *)
Record window : Type := Window {
  the_app : MonteCarloApp;
  lbl_file : string
}.

(** The window after [__init__], which ends with [_build_ui]. *)
Definition window_init : window := Window init "No file loaded".

Definition with_cycle_times (app : MonteCarloApp) (c : list Q) : MonteCarloApp :=
  App (Some c) (num_backlog app) (num_sims app) (sample_size app)
      (percentiles app) (tree app) (canvas app).

(** How [load_excel] ends: the dialog was cancelled, one of its two error
    boxes was shown, or the file was loaded. *)
Inductive load_outcome : Type :=
| Cancelled
| NoNumericColumns               (* "No numeric columns found." *)
| FailedToLoad (e : string)      (* "Failed to load file:\n{e}" *)
| Loaded.

Section Loader.

(** The file system as the two readers see it: a data frame, or the
    message of the exception the reader raises. *)
Variable read_csv read_excel : string → string + list column.

(** [MonteCarloApp.load_excel], for the path the file dialog returned
    (empty when the dialog was cancelled). *)
Definition load_excel (path : string) (w : window) : load_outcome * window :=
  if String.eqb path "" then (Cancelled, w)
  else
    match (if endswith (lower path) ".csv" then read_csv path else read_excel path) with
    | inl e => (FailedToLoad e, w)
    | inr df =>
        let numeric := pandas.select_dtypes_number df in
        if pandas.empty numeric then (NoNumericColumns, w)
        else
          match numeric with
          | [] => (FailedToLoad "IndexError", w)
          | values :: _ =>
              (Loaded,
               Window (with_cycle_times (the_app w) (pandas.dropna values))
                      ("Loaded: " +:+ path))
          end
    end.

End Loader.

(** A file system for the examples: one CSV file with a text column, a
    numeric column with a missing value and a second numeric column, one
    whose only column has missing values only; any other path fails to
    open. *)
Definition sample_frame : list column :=
  [OtherCol [Some "a"; Some "b"; Some "c"; Some "d"];
   NumCol [Some 6; None; Some 8; Some 7]%Q;
   NumCol [Some 1; Some 2; Some 3; Some 4]%Q].

Definition sample_csv (path : string) : string + list column :=
  if String.eqb path "times.CSV" then inr sample_frame
  else if String.eqb path "gaps.csv" then inr [NumCol [None; None]]
  else inl "No such file".

Definition sample_excel (path : string) : string + list column :=
  inl "No such file".


Definition only_p90 : pct_vars := PctVars false false false true.

Definition sample_window : window := Window demo_app "No file loaded".

(** * Properties *)

#[global] Instance Qle_total : Total Qle.
Proof. intros x y. destruct (Qlt_le_dec x y) as [H|H]; [left; lra | right; lra]. Qed.

#[global] Instance Qle_transitive : Transitive Qle.
Proof. intros x y z. apply Qle_trans. Qed.

(** ** The history window *)

Lemma slice_from_nonneg {A} (a : list A) (start : Z) :
  0 <= start → slice_from a start = drop (Z.to_nat start) a.
Proof.
  intros Hs. unfold slice_from, len.
  destruct (start <? 0) eqn:E; [lia|].
  destruct (Z.min_spec start (Z.of_nat (length a))) as [[Hlt ->]|[Hge ->]]; [done|].
  rewrite Nat2Z.id, !drop_ge; [done | lia | lia].
Qed.

Lemma slice_from_neg {A} (a : list A) (start : Z) :
  start < 0 → - start <= len a →
  slice_from a start = last_elements a (Z.to_nat (- start)).
Proof.
  intros Hs Hl. unfold slice_from, last_elements, len in *.
  destruct (start <? 0) eqn:E; [|lia].
  f_equal. lia.
Qed.

Lemma effective_history_positive (cycle_times : list Q) (hist_n : Z) :
  1 <= hist_n →
  effective_history cycle_times hist_n =
    if hist_n <? len cycle_times then last_elements cycle_times (Z.to_nat hist_n)
    else cycle_times.
Proof.
  intros HK. unfold effective_history.
  destruct (hist_n <? len cycle_times) eqn:E; [|done].
  rewrite slice_from_neg; [|lia|lia]. by rewrite Z.opp_involutive.
Qed.

Lemma effective_history_zero (cycle_times : list Q) :
  effective_history cycle_times 0 = cycle_times.
Proof.
  unfold effective_history.
  destruct (0 <? len cycle_times); [|done].
  by rewrite slice_from_nonneg.
Qed.

Lemma effective_history_negative (cycle_times : list Q) (hist_n : Z) :
  hist_n < 0 →
  effective_history cycle_times hist_n = drop (Z.to_nat (- hist_n)) cycle_times.
Proof.
  intros HK. unfold effective_history, len.
  destruct (Z.ltb_spec hist_n (Z.of_nat (length cycle_times))); [|lia].
  apply slice_from_nonneg. lia.
Qed.

Lemma length_last_elements {A} (a : list A) (k : nat) :
  (k ≤ length a)%nat → length (last_elements a k) = k.
Proof. intros H. unfold last_elements. rewrite length_drop. lia. Qed.

(** C9 (history window, non-positive sizes).  With a window size of 0 and
    a non-empty history the effective history is the entire history; with
    a negative window size [K] (which is then below the length) it is the
    history without its first [|K|] elements, the slice [history[-K:]]. *)
Theorem window_nonpositive (cycle_times : list Q) :
  (cycle_times ≠ [] →
     effective_history cycle_times 0 = cycle_times
     ∧ effective_history cycle_times 0 ≠ last_elements cycle_times 0)
  ∧ (∀ K : Z, K < 0 → K < len cycle_times →
       effective_history cycle_times K = slice_from cycle_times (- K)
       ∧ effective_history cycle_times K = drop (Z.to_nat (Z.abs K)) cycle_times).
Proof.
  split.
  - intros Hne. split; [apply effective_history_zero|].
    rewrite effective_history_zero. unfold last_elements.
    rewrite Nat.sub_0_r, drop_all. done.
  - intros K HK Hlt. split.
    + unfold effective_history. by rewrite (proj2 (Z.ltb_lt _ _) Hlt).
    + rewrite effective_history_negative by done. do 2 f_equal. lia.
Qed.

Lemma window_nonpositive_witness :
  (effective_history [6; 8; 7; 5; 9]%Q 0 = [6; 8; 7; 5; 9]%Q
   ∧ effective_history [6; 8; 7; 5; 9]%Q 0 ≠ last_elements [6; 8; 7; 5; 9]%Q 0)
  ∧ (effective_history [6; 8; 7; 5; 9]%Q (-2) = slice_from [6; 8; 7; 5; 9]%Q (- -2)
     ∧ effective_history [6; 8; 7; 5; 9]%Q (-2) = [7; 5; 9]%Q).
Proof.
  split.
  - apply (proj1 (window_nonpositive [6; 8; 7; 5; 9]%Q)). discriminate.
  - apply (proj2 (window_nonpositive [6; 8; 7; 5; 9]%Q) (-2)); [lia | reflexivity].
Defined.

(** ** The trials *)

Section Trials.

Context {G : Type}.
Variable randint : nat → G → nat * G.

(** The contract of the bounded draw: an index below the bound. *)
Hypothesis randint_range :
  ∀ (n : nat) (g : G), (0 < n)%nat → ((randint n g).1 < n)%nat.

Lemma after_S n k g : after randint n (S k) g = after randint n k (randint n g).2.
Proof. unfold after. by rewrite Nat.iter_succ_r. Qed.

Lemma after_add n j k g : after randint n (j + k) g = after randint n k (after randint n j g).
Proof. unfold after. by rewrite Nat.add_comm, Nat.iter_add. Qed.

Lemma length_draws n size g : length (draws randint n size g) = size.
Proof. revert g. induction size as [|size IH]; intros g; simpl; [done|]. by rewrite IH. Qed.


Lemma draws_range n size g : (0 < n)%nat → Forall (λ i, (i < n)%nat) (draws randint n size g).
Proof.
  intros Hn. revert g. induction size as [|size IH]; intros g; simpl; constructor; auto.
Qed.

Lemma draw_run n size app g :
  draw randint n size (app, g) = (Ok (draws randint n size g), (app, after randint n size g)).
Proof.
  revert g. induction size as [|size IH]; intros g; [done|].
  rewrite after_S. cbn [draw draws]. unfold mbind, M_bind at 1. unfold rand at 1.
  destruct (randint n g) as [i g'] eqn:E. cbn [fst snd].
  unfold M_bind at 1. by rewrite IH.
Qed.

Lemma take_indices_run (a : list Q) (idx : list nat) :
  Forall (λ i, (i < length a)%nat) idx →
  take_indices a idx = Ok (map (λ i, a !!! i) idx).
Proof.
  induction 1 as [|i idx Hi _ IH]; [done|]. cbn [take_indices map].
  destruct (lookup_lt_is_Some_2 a i Hi) as [x Hx]. rewrite Hx, IH.
  by rewrite (list_lookup_total_correct _ _ _ Hx).
Qed.

Lemma choice_run history N app g :
  history ≠ [] → 0 <= N →
  choice randint history N (app, g)
  = (Ok (sample_of randint history (Z.to_nat N) g),
     (app, after randint (length history) (Z.to_nat N) g)).
Proof.
  intros Hne HN. unfold choice.
  destruct (Z.ltb_spec N 0); [lia|].
  assert ((len history =? 0) = false) as ->.
  { apply Z.eqb_neq. unfold len. destruct history; [done | simpl; lia]. }
  cbn [andb]. unfold mbind, M_bind. rewrite draw_run. unfold lift.
  rewrite take_indices_run; [done|].
  apply draws_range. destruct history; [done | simpl; lia].
Qed.


Lemma length_sample_of history N g : length (sample_of randint history N g) = N.
Proof. unfold sample_of. by rewrite length_map, length_draws. Qed.


Lemma length_rows_of history N T g : length (rows_of randint history N T g) = T.
Proof. revert g. induction T as [|T IH]; intros g; simpl; [done|]. by rewrite IH. Qed.


Lemma trials_loop history N app (todo : nat) :
  history ≠ [] → 0 <= N →
  ∀ (pre zs : list (list Q)) (g : G),
    length zs = todo →
    for_each (seq (length pre) todo) (trial randint history N) (pre ++ zs) (app, g)
    = (Ok (pre ++ rows_of randint history (Z.to_nat N) todo g),
       (app, after randint (length history) (todo * Z.to_nat N) g)).
Proof.
  intros Hne HN. induction todo as [|todo IH]; intros pre zs g Hzs.
  - destruct zs; [done | discriminate].
  - destruct zs as [|z zs]; [discriminate|]. injection Hzs as Hzs.
    cbn [seq for_each rows_of]. unfold mbind, M_bind at 1.
    unfold trial at 1. unfold mbind, M_bind at 1.
    rewrite choice_run by done. unfold mret, M_ret at 1.
    rewrite (insert_app_r_alt pre) by lia. rewrite Nat.sub_diag.
    change (<[0%nat:=?x]> (z :: zs)) with (x :: zs).
    rewrite (cons_middle _ pre zs), (assoc_L (++)).
    replace (S (length pre)) with (length (pre ++ [np.cumsum
      (sample_of randint history (Z.to_nat N) g)])) by (rewrite length_app; simpl; lia).
    rewrite IH by done. rewrite <- (assoc_L (++)). cbn [List.app].
    by rewrite <- after_add.
Qed.

Lemma trials_run history N sims app g :
  history ≠ [] → 0 <= N →
  for_each (range sims) (trial randint history N) (np.zeros sims N) (app, g)
  = (Ok (rows_of randint history (Z.to_nat N) (Z.to_nat sims) g),
     (app, after randint (length history) (Z.to_nat sims * Z.to_nat N) g)).
Proof.
  intros Hne HN. unfold range, np.zeros.
  apply (trials_loop history N app (Z.to_nat sims) Hne HN []).
  apply length_replicate.
Qed.

End Trials.

(** ** Cumulative sums *)

Lemma length_cumsum_from acc a : length (np.cumsum_from acc a) = length a.
Proof. revert acc. induction a as [|x a IH]; intros acc; simpl; [done|]. by rewrite IH. Qed.

Lemma length_cumsum a : length (np.cumsum a) = length a.
Proof. destruct a; simpl; [done|]. by rewrite length_cumsum_from. Qed.






Section TrialsSpec.

Context {G : Type}.
Variable randint : nat → G → nat * G.
Hypothesis randint_range :
  ∀ (n : nat) (g : G), (0 < n)%nat → ((randint n g).1 < n)%nat.


End TrialsSpec.

(** ** Percentiles *)

Lemma length_merge_sort (arr : list Q) : length (merge_sort Qle arr) = length arr.
Proof. apply Permutation_length, merge_sort_Permutation. Qed.

Lemma getitem_nonneg {A} `{Inhabited A} (a : list A) (i : Z) :
  0 <= i < len a → getitem a i = Ok (a !!! Z.to_nat i).
Proof.
  intros Hi. unfold getitem, len in *.
  do 2 (destruct (Z.ltb_spec i 0); [lia|]).
  destruct (lookup_lt_is_Some_2 a (Z.to_nat i)) as [x Hx]; [lia|].
  by rewrite Hx, (list_lookup_total_correct _ _ _ Hx).
Qed.

Lemma getitem_last {A} `{Inhabited A} (a : list A) :
  1 <= len a → getitem a (-1) = Ok (a !!! Z.to_nat (len a - 1)).
Proof.
  intros Hn. unfold getitem, len in *. cbn [Z.ltb Z.compare].
  destruct (Z.ltb_spec (-1 + Z.of_nat (length a)) 0); [lia|].
  replace (-1 + Z.of_nat (length a)) with (Z.of_nat (length a) - 1) by lia.
  destruct (lookup_lt_is_Some_2 a (Z.to_nat (Z.of_nat (length a) - 1))) as [x Hx]; [lia|].
  by rewrite Hx, (list_lookup_total_correct _ _ _ Hx).
Qed.

Lemma lerp_eq (a b t : Q) : (np.lerp a b t == a + (b - a) * t)%Q.
Proof. unfold np.lerp. destruct (Qle_bool (1 # 2) t); ring. Qed.

Lemma percent_range (p : Z) :
  0 <= p <= 100 → (0 <= inject_Z p / 100 ∧ inject_Z p / 100 <= 1)%Q.
Proof.
  intros [H0 H1]. rewrite Zle_Qle in H0, H1.
  change (inject_Z 0) with 0%Q in H0. change (inject_Z 100) with 100%Q in H1.
  unfold Qdiv. change (/ 100)%Q with (1 # 100)%Q. split; lra.
Qed.

Lemma virtual_index_range (n p : Z) :
  1 <= n → 0 <= p <= 100 →
  (0 <= virtual_index n p ∧ virtual_index n p <= inject_Z (n - 1))%Q.
Proof.
  intros Hn Hp. destruct (percent_range p Hp) as [Hq0 Hq1].
  assert (0 <= inject_Z (n - 1))%Q as Hm.
  { change 0%Q with (inject_Z 0). rewrite <- Zle_Qle. lia. }
  unfold virtual_index. split; nra.
Qed.

Lemma virtual_index_floor (n p : Z) :
  1 <= n → 0 <= p <= 100 → 0 <= Qfloor (virtual_index n p) <= n - 1.
Proof.
  intros Hn Hp. destruct (virtual_index_range n p Hn Hp) as [H0 H1].
  split.
  - change 0 with (Qfloor 0). by apply Qfloor_resp_le.
  - rewrite <- (Qfloor_Z (n - 1)). by apply Qfloor_resp_le.
Qed.

Lemma percentile_run (arr : list Q) (p : Z) :
  arr ≠ [] → 0 <= p <= 100 →
  ∃ v, np.percentile arr p = Ok v
       ∧ (v == interp (merge_sort Qle arr) (virtual_index (len arr) p))%Q.
Proof.
  intros Hne Hp.
  assert (1 <= len arr) as Hn by (unfold len; destruct arr; [done | simpl; lia]).
  destruct (percent_range p Hp) as [Hq0 Hq1].
  destruct (virtual_index_range _ p Hn Hp) as [Hv0 Hv1].
  destruct (virtual_index_floor _ p Hn Hp) as [Hf0 Hf1].
  assert (len (merge_sort Qle arr) = len arr) as Hlen
    by (unfold len; by rewrite length_merge_sort).
  unfold np.percentile. fold (virtual_index (len arr) p).
  rewrite (proj2 (Qle_bool_iff _ _) Hq0), (proj2 (Qle_bool_iff _ _) Hq1).
  rewrite (proj2 (Qle_bool_iff _ _) Hv0). cbn [andb negb].
  destruct (Qle_bool (inject_Z (len arr - 1)) (virtual_index (len arr) p)) eqn:Ea.
  - apply Qle_bool_iff in Ea.
    assert (virtual_index (len arr) p == inject_Z (len arr - 1))%Q as Hvi by lra.
    rewrite getitem_last by lia. cbn [mbind result_bind].
    eexists. split; [done|]. rewrite lerp_eq. unfold interp.
    rewrite (Qfloor_comp _ _ Hvi), Qfloor_Z, Hlen, Hvi. ring.
  - assert (virtual_index (len arr) p < inject_Z (len arr - 1))%Q as Hlt.
    { apply Qnot_le_lt. intros Hle. apply Qle_bool_iff in Hle. congruence. }
    assert (Qfloor (virtual_index (len arr) p) < len arr - 1) as Hf2.
    { rewrite Zlt_Qlt. pose proof (Qfloor_le (virtual_index (len arr) p)). lra. }
    rewrite !getitem_nonneg by lia. cbn [mbind result_bind].
    eexists. split; [done|]. rewrite lerp_eq. unfold interp.
    rewrite Z2Nat.inj_add by lia. change (Z.to_nat 1) with 1%nat.
    rewrite Nat.add_1_r. reflexivity.
Qed.

Lemma percentile_pctl (arr : list Q) (p : Z) :
  arr ≠ [] → 0 <= p <= 100 → np.percentile arr p = Ok (pctl arr p).
Proof.
  intros Hne Hp. destruct (percentile_run arr p Hne Hp) as (v & Hv & _).
  unfold pctl. by rewrite Hv.
Qed.




(** ** Order statistics *)








(** ** Monotonicity of the interpolation *)

Section Interp.

Variable s : list Q.
Variable r : Q.
Hypothesis r_range : (0 <= r ∧ r <= inject_Z (len s - 1))%Q.

Let f := Qfloor r.
Let gamma := (r - inject_Z f)%Q.





End Interp.








(** ** The forecast table *)

Lemma requested_items (v : pct_vars) : requested (items v) = Ok (pcts_of v).
Proof. destruct v as [[] [] [] []]; reflexivity. Qed.

Lemma pcts_of_range (v : pct_vars) : Forall (λ p, 0 <= p <= 100) (pcts_of v).
Proof. destruct v as [[] [] [] []]; repeat constructor; lia. Qed.

Lemma pcts_of_labels (v : pct_vars) : NoDup (fmt_label <$> pcts_of v).
Proof. destruct v as [[] [] [] []]; apply (bool_decide_unpack _); vm_compute; exact I. Qed.

Lemma column_run (m : list (list Q)) (pos : nat) :
  Forall (λ r, (pos < length r)%nat) m → np.column m pos = Ok (col m pos).
Proof.
  induction 1 as [|r m Hr _ IH]; [done|]. cbn [np.column col map].
  destruct (lookup_lt_is_Some_2 r pos Hr) as [x Hx].
  rewrite Hx, IH. cbn. by rewrite (list_lookup_total_correct _ _ _ Hx).
Qed.

Lemma add_forecasts_is_Some m pcts pos pd k :
  is_Some (pd !! k) → is_Some (add_forecasts m pcts pos pd !! k).
Proof.
  unfold add_forecasts. revert pd. induction pcts as [|p pcts IH]; intros pd Hk; [done|].
  cbn [foldl]. apply IH. rewrite lookup_alter. case_decide; [|done].
  subst. by apply fmap_is_Some.
Qed.

Lemma add_forecasts_other m pcts pos pd k :
  k ∉ fmt_label <$> pcts → add_forecasts m pcts pos pd !! k = pd !! k.
Proof.
  unfold add_forecasts. revert pd. induction pcts as [|p pcts IH]; intros pd Hk; [done|].
  cbn [foldl]. rewrite fmap_cons, not_elem_of_cons in Hk. destruct Hk as [Hne Hk].
  rewrite IH by done. by apply lookup_alter_ne.
Qed.

Lemma add_forecasts_lookup m pcts pos pd p values :
  NoDup (fmt_label <$> pcts) → p ∈ pcts → pd !! fmt_label p = Some values →
  add_forecasts m pcts pos pd !! fmt_label p = Some (values ++ [fc m pos p]).
Proof.
  revert pd. induction pcts as [|q pcts IH]; intros pd Hnd Hp Hpd.
  - by apply elem_of_nil in Hp.
  - rewrite fmap_cons in Hnd. apply NoDup_cons in Hnd as [Hq Hnd].
    change (add_forecasts m (q :: pcts) pos pd)
      with (add_forecasts m pcts pos
              (alter (λ values, values ++ [fc m pos q]) (fmt_label q) pd)).
    destruct (decide (fmt_label q = fmt_label p)) as [Heq|Hne].
    + rewrite <- Heq in *. rewrite add_forecasts_other by done.
      rewrite lookup_alter_eq, Hpd. cbn.
      assert (q = p) as ->; [|done].
      unfold fmt_label in Heq. injection Heq as Heq. by apply (inj pretty).
    + apply elem_of_cons in Hp as [->|Hp]; [done|].
      apply IH; [done | done|]. by rewrite lookup_alter_ne.
Qed.

Lemma col_nonempty (m : list (list Q)) (pos : nat) : m ≠ [] → col m pos ≠ [].
Proof. unfold col. by destruct m. Qed.

Section Table.

Context {G : Type}.
Variable m : list (list Q).
Variable N : nat.
Hypothesis m_rows : Forall (λ r, length r = N) m.
Hypothesis m_nonempty : m ≠ [].

Lemma forecast_loop (pos : nat) (pcts : list Z) :
  (pos < N)%nat → Forall (λ p, 0 <= p <= 100) pcts →
  ∀ (row : list cell) (pd : gmap string (list Q)) (σ : @state G),
    (∀ p, p ∈ pcts → is_Some (pd !! fmt_label p)) →
    for_each pcts (forecast m pos) (row, pd) σ
    = (Ok (row ++ map (λ p, CStr (format_2f (fc m pos p))) pcts,
           add_forecasts m pcts pos pd), σ).
Proof.
  intros Hpos Hpcts. induction Hpcts as [|p pcts Hp _ IH]; intros row pd σ Hpd.
  - cbn. by rewrite app_nil_r.
  - cbn [for_each]. unfold mbind, M_bind at 1. unfold forecast at 1.
    unfold mbind, M_bind, lift, mret, M_ret.
    rewrite column_run by (eapply Forall_impl; [apply m_rows | simpl; lia]).
    rewrite percentile_pctl by (done || by apply col_nonempty).
    destruct (Hpd p ltac:(left)) as [values Hv].
    unfold dict_append. rewrite Hv.
    rewrite <- (alter_alt_Some (λ values, values ++ [pctl (col m pos) p]) _ _ _ Hv).
    cbn [mbind result_bind]. rewrite IH.
    + by rewrite <- (assoc_L (++)).
    + intros q Hq. rewrite lookup_alter. case_decide as Hc; [|apply Hpd; by right].
      rewrite Hc. apply fmap_is_Some, Hpd. by right.
Qed.

Lemma position_run (pos : nat) (pcts : list Z) (pd : gmap string (list Q))
    (app : MonteCarloApp) (g : G) :
  (pos < N)%nat → Forall (λ p, 0 <= p <= 100) pcts →
  (∀ p, p ∈ pcts → is_Some (pd !! fmt_label p)) →
  position m pcts pos pd (app, g)
  = (Ok (add_forecasts m pcts pos pd),
     (with_tree app (tree app ++ [table_row m pcts pos]), g)).
Proof.
  intros Hpos Hpcts Hpd. unfold position, mbind, M_bind.
  rewrite forecast_loop by done. done.
Qed.

Lemma positions_loop (pcts : list Z) (n : nat) :
  Forall (λ p, 0 <= p <= 100) pcts →
  ∀ (start : nat) (pd : gmap string (list Q)) (app : MonteCarloApp) (g : G),
    (start + n ≤ N)%nat →
    (∀ p, p ∈ pcts → is_Some (pd !! fmt_label p)) →
    for_each (seq start n) (position m pcts) pd (app, g)
    = (Ok (foldl (λ d pos, add_forecasts m pcts pos d) pd (seq start n)),
       (with_tree app (tree app ++ map (table_row m pcts) (seq start n)), g)).
Proof.
  intros Hpcts. induction n as [|n IH]; intros start pd app g Hn Hpd.
  - cbn. rewrite app_nil_r. by destruct app.
  - cbn [seq for_each]. unfold mbind, M_bind at 1.
    rewrite position_run by (done || lia).
    rewrite IH; [| lia | intros p Hp; by apply add_forecasts_is_Some, Hpd].
    cbn [foldl map]. do 3 f_equal. unfold with_tree. cbn.
    by rewrite <- (assoc_L (++)).
Qed.

End Table.

Lemma plot_data_init_lookup (pcts : list Z) (p : Z) :
  p ∈ pcts → plot_data_init pcts !! fmt_label p = Some [].
Proof.
  unfold plot_data_init.
  assert (∀ d : gmap string (list Q),
            p ∈ pcts ∨ d !! fmt_label p = Some [] →
            foldl (λ d p, <[fmt_label p := []]> d) d pcts !! fmt_label p = Some []) as Hgen.
  { induction pcts as [|q pcts IH]; intros d Hd.
    - destruct Hd as [Hd|Hd]; [by apply elem_of_nil in Hd | done].
    - cbn [foldl]. apply IH.
      destruct (decide (q = p)) as [->|Hne].
      + right. apply lookup_insert_eq.
      + destruct Hd as [Hd|Hd].
        * apply elem_of_cons in Hd as [->|Hd]; [done | by left].
        * right. destruct (decide (fmt_label q = fmt_label p)) as [->|Hl].
          -- apply lookup_insert_eq.
          -- by rewrite lookup_insert_ne. }
  intros Hp. apply Hgen. by left.
Qed.

Lemma positions_lookup (m : list (list Q)) (pcts : list Z) (p : Z) (n : nat) :
  NoDup (fmt_label <$> pcts) → p ∈ pcts →
  ∀ (start : nat) (pd : gmap string (list Q)) (values : list Q),
    pd !! fmt_label p = Some values →
    foldl (λ d pos, add_forecasts m pcts pos d) pd (seq start n) !! fmt_label p
    = Some (values ++ map (λ pos, fc m pos p) (seq start n)).
Proof.
  intros Hnd Hp. induction n as [|n IH]; intros start pd values Hpd.
  - cbn. by rewrite app_nil_r.
  - cbn [seq foldl map].
    rewrite (IH _ _ (values ++ [fc m start p])).
    + by rewrite <- (assoc_L (++)).
    + by apply add_forecasts_lookup.
Qed.

Lemma curves_lookup (m : list (list Q)) (pcts : list Z) (p : Z) (n : nat) :
  NoDup (fmt_label <$> pcts) → p ∈ pcts →
  curves m pcts n !! fmt_label p = Some (map (λ pos, fc m pos p) (seq 0 n)).
Proof.
  intros Hnd Hp. unfold curves.
  by rewrite (positions_lookup m pcts p n Hnd Hp 0 _ []); [|apply plot_data_init_lookup].
Qed.

Lemma curves_no_percentiles (m : list (list Q)) (n : nat) : curves m [] n = ∅.
Proof.
  unfold curves. generalize 0%nat. induction n as [|n IH]; intros start; [done|].
  cbn [seq foldl]. apply IH.
Qed.

(** ** The whole run *)

Section Engine.

Context {G : Type}.
Variable randint : nat → G → nat * G.
Hypothesis randint_range :
  ∀ (n : nat) (g : G), (0 < n)%nat → ((randint n g).1 < n)%nat.

Lemma rows_of_lengths history N T g :
  Forall (λ r, length r = N) (rows_of randint history N T g).
Proof.
  revert g. induction T as [|T IH]; intros g; cbn [rows_of]; constructor; [|done].
  by rewrite length_cumsum, length_sample_of.
Qed.

Lemma matrix_of_rows app h g :
  Forall (λ r, length r = Z.to_nat (num_backlog app)) (matrix_of randint app h g).
Proof. apply rows_of_lengths. Qed.

Lemma length_matrix_of app h g : length (matrix_of randint app h g) = Z.to_nat (num_sims app).
Proof. apply length_rows_of. Qed.

Lemma matrix_of_nonempty app h g : 1 <= num_sims app → matrix_of randint app h g ≠ [].
Proof.
  intros Hs Hm. pose proof (length_matrix_of app h g) as Hl.
  rewrite Hm in Hl. simpl in Hl. lia.
Qed.

Lemma valid_history_nonempty app h :
  valid_input app h → effective_history h (sample_size app) ≠ [].
Proof. intros (_ & HN & _ & Hlen) Hnil. rewrite Hnil in Hlen. unfold len in Hlen. simpl in Hlen. lia. Qed.

Lemma run_simulation_completed (app : MonteCarloApp) (h : list Q) (g : G) :
  valid_input app h →
  run_simulation randint (app, g)
  = (Ok Completed,
     (final app (matrix_of randint app h g),
      after randint (length (effective_history h (sample_size app)))
            (Z.to_nat (num_sims app) * Z.to_nat (num_backlog app)) g)).
Proof.
  intros Hvalid. pose proof (valid_history_nonempty app h Hvalid) as Hne.
  destruct Hvalid as (Hfile & HN & Hsims & Hlen).
  unfold run_simulation. unfold mbind at 1. unfold M_bind at 1. unfold self at 1.
  cbn [fst]. rewrite Hfile.
  destruct (Z.leb_spec (num_backlog app) 0); [lia|].
  destruct (Z.leb_spec 10000 (num_sims app)); [|lia].
  destruct (Z.leb_spec (num_sims app) 30000); [|lia].
  cbn [orb andb negb].
  destruct (Z.ltb_spec (len (effective_history h (sample_size app))) (num_backlog app)); [lia|].
  unfold mbind at 1. unfold M_bind at 1.
  rewrite (trials_run randint randint_range) by (done || lia).
  fold (matrix_of randint app h g).
  unfold mbind at 1. unfold M_bind at 1. unfold lift at 1.
  rewrite requested_items.
  unfold mbind at 1. unfold M_bind at 1.
  change (set_tree [] (app, ?g')) with (Ok (), (with_tree app [], g')).
  cbv iota beta.
  unfold mbind at 1. unfold M_bind at 1. unfold range.
  rewrite (positions_loop (matrix_of randint app h g) (Z.to_nat (num_backlog app))
             (matrix_of_rows app h g) (matrix_of_nonempty app h g ltac:(lia))
             (pcts_of (percentiles app)) (Z.to_nat (num_backlog app))
             (pcts_of_range _)); [| lia |].
  - done.
  - intros p Hp. rewrite plot_data_init_lookup by done. by eexists.
Qed.

End Engine.

(** ** Validation *)

Section Validation.

Context {G : Type}.
Variable randint : nat → G → nat * G.

Lemma run_invalid_config (app : MonteCarloApp) (h : list Q) (g : G) :
  cycle_times app = Some h →
  num_backlog app <= 0 ∨ num_sims app < 10000 ∨ 30000 < num_sims app →
  run_simulation randint (app, g) = (Ok InvalidConfig, (app, g)).
Proof.
  intros Hfile Hbad. unfold run_simulation, mbind, M_bind, self. cbn [fst].
  rewrite Hfile.
  destruct (Z.leb_spec (num_backlog app) 0); [done|].
  destruct (Z.leb_spec 10000 (num_sims app)); [|done].
  destruct (Z.leb_spec (num_sims app) 30000); [|done]. lia.
Qed.

Lemma run_insufficient_data (app : MonteCarloApp) (h : list Q) (g : G) :
  cycle_times app = Some h →
  1 <= num_backlog app → 10000 <= num_sims app <= 30000 →
  len (effective_history h (sample_size app)) < num_backlog app →
  run_simulation randint (app, g)
  = (Ok (InsufficientData (len (effective_history h (sample_size app)))
                          (num_backlog app)), (app, g)).
Proof.
  intros Hfile HN Hsims Hlen. unfold run_simulation, mbind, M_bind, self. cbn [fst].
  rewrite Hfile.
  destruct (Z.leb_spec (num_backlog app) 0); [lia|].
  destruct (Z.leb_spec 10000 (num_sims app)); [|lia].
  destruct (Z.leb_spec (num_sims app) 30000); [|lia].
  cbn [orb andb negb].
  by destruct (Z.ltb_spec (len (effective_history h (sample_size app))) (num_backlog app)); [|lia].
Qed.

(** Past both checks the run can only end with [Completed]. *)
Lemma run_checks_passed (app : MonteCarloApp) (h : list Q) (g : G)
    (o : outcome) (σ : state) :
  cycle_times app = Some h →
  1 <= num_backlog app → 10000 <= num_sims app <= 30000 →
  num_backlog app <= len (effective_history h (sample_size app)) →
  run_simulation randint (app, g) = (Ok o, σ) → o = Completed.
Proof.
  intros Hfile HN Hsims Hlen. unfold run_simulation. unfold mbind at 1.
  unfold M_bind at 1. unfold self at 1. cbn [fst]. rewrite Hfile.
  destruct (Z.leb_spec (num_backlog app) 0); [lia|].
  destruct (Z.leb_spec 10000 (num_sims app)); [|lia].
  destruct (Z.leb_spec (num_sims app) 30000); [|lia].
  cbn [orb andb negb].
  destruct (Z.ltb_spec (len (effective_history h (sample_size app))) (num_backlog app)); [lia|].
  unfold mbind, M_bind, mret, M_ret.
  repeat match goal with
         | |- context [match ?x with (_, _) => _ end] =>
             lazymatch x with
             | context [match _ with _ => _ end] => fail
             | _ => destruct x as [[?|?] ?]
             end
         end; congruence.
Qed.

(** C5 (configuration check).  With a file loaded, a backlog size
    [N <= 0] or a trial count outside 10000..30000 ends the run with the
    "Invalid N or simulation count." box and leaves the application
    object and the generator as they were, so no trial has run; a
    positive [N] with a trial count inside the bounds, both ends
    included, never ends that way. *)
Theorem config_check (app : MonteCarloApp) (h : list Q) (g : G) :
  cycle_times app = Some h →
  (num_backlog app <= 0 ∨ num_sims app < 10000 ∨ 30000 < num_sims app →
     run_simulation randint (app, g) = (Ok InvalidConfig, (app, g)))
  ∧ (1 <= num_backlog app → 10000 <= num_sims app <= 30000 →
     (run_simulation randint (app, g)).1 ≠ Ok InvalidConfig).
Proof.
  intros Hfile. split; [intros Hbad; by apply (run_invalid_config app h g)|].
  intros HN Hsims Hrun.
  destruct (Z.ltb_spec (len (effective_history h (sample_size app))) (num_backlog app)).
  - rewrite (run_insufficient_data app h g) in Hrun by done. done.
  - destruct (run_simulation randint (app, g)) as [r σ] eqn:E. cbn in Hrun. subst r.
    by pose proof (run_checks_passed app h g _ _ Hfile HN Hsims ltac:(done) E).
Qed.

(** C6 (sufficiency check).  With a file loaded, a backlog size
    [N >= 1] and a trial count within bounds, an effective history that
    is empty or shorter than [N] ends the run with the "Not enough
    data" box and leaves the application object and the generator as
    they were, so no trial has run. *)
Theorem short_history_rejected (app : MonteCarloApp) (h : list Q) (g : G) :
  cycle_times app = Some h →
  1 <= num_backlog app → 10000 <= num_sims app <= 30000 →
  effective_history h (sample_size app) = []
  ∨ len (effective_history h (sample_size app)) < num_backlog app →
  run_simulation randint (app, g)
  = (Ok (InsufficientData (len (effective_history h (sample_size app)))
                          (num_backlog app)), (app, g)).
Proof.
  intros Hfile HN Hsims Hshort. apply run_insufficient_data; [done..|].
  destruct Hshort as [->|Hlt]; [|done]. unfold len. simpl. lia.
Qed.


End Validation.

(** ** The forecasts *)


Lemma table_row_lookup (m : list (list Q)) (pcts : list Z) (pos j : nat) (p : Z) :
  pcts !! j = Some p →
  table_row m pcts pos !! S j = Some (CStr (format_2f (fc m pos p))).
Proof.
  intros Hj. unfold table_row. change ((?x :: ?l) !! S j) with (l !! j).
  by rewrite list_lookup_fmap, Hj.
Qed.

Section Forecasts.

Context {G : Type}.
Variable randint : nat → G → nat * G.
Hypothesis randint_range :
  ∀ (n : nat) (g : G), (0 < n)%nat → ((randint n g).1 < n)%nat.

Variable app : MonteCarloApp.
Variable h : list Q.
Variable g : G.
Hypothesis valid : valid_input app h.

Let N := num_backlog app.
Let sims := num_sims app.
Let history := effective_history h (sample_size app).
Let m := matrix_of randint app h g.
Let pcts := pcts_of (percentiles app).




Lemma final_tree_lookup (pos : nat) :
  (pos < Z.to_nat N)%nat →
  tree (final app m) !! pos = Some (table_row m pcts pos).
Proof.
  intros Hpos. unfold final. cbn [tree with_canvas with_tree].
  rewrite list_lookup_fmap, lookup_seq_lt by done. done.
Qed.

Lemma final_curve_lookup (p : Z) (pos : nat) :
  p ∈ pcts → (pos < Z.to_nat N)%nat →
  ∃ fig values,
    canvas (final app m) = Some fig
    ∧ fig_curves fig !! fmt_label p = Some values
    ∧ length values = Z.to_nat N
    ∧ values !! pos = Some (fc m pos p).
Proof.
  intros Hp Hpos. unfold final. cbn [canvas with_canvas].
  eexists _, _. split; [done|]. cbn [fig_curves].
  split; [apply curves_lookup; [apply pcts_of_labels | done]|].
  split; [by rewrite length_map, length_seq|].
  rewrite list_lookup_fmap, lookup_seq_lt by done. done.
Qed.

End Forecasts.




Section Claims.

Context {G : Type}.
Variable randint : nat → G → nat * G.
Hypothesis randint_range :
  ∀ (n : nat) (g : G), (0 < n)%nat → ((randint n g).1 < n)%nat.




(** C10 (no percentile requested).  With none of the four boxes ticked
    a valid input still runs to completion: the table has exactly [N]
    rows, the row at place [k] holds the position [k] and nothing else,
    and the plot has no curve. *)
Theorem no_percentile_requested (app : MonteCarloApp) (h : list Q) (g : G) :
  valid_input app h →
  percentiles app = PctVars false false false false →
  ∃ (app' : MonteCarloApp) (g' : G),
    run_simulation randint (app, g) = (Ok Completed, (app', g'))
    ∧ requested (items (percentiles app)) = Ok []
    ∧ length (tree app') = Z.to_nat (num_backlog app)
    ∧ (∀ k : nat, (1 ≤ k ≤ Z.to_nat (num_backlog app))%nat →
         tree app' !! (k - 1)%nat = Some [CInt (Z.of_nat k)])
    ∧ canvas app'
      = Some (Figure (map Z.of_nat (seq 1 (Z.to_nat (num_backlog app)))) ∅).
Proof.
  intros Hvalid Hnone. eexists _, _.
  split; [by apply run_simulation_completed|].
  split; [by rewrite Hnone|].
  split; [|split].
  - unfold final. cbn [tree with_canvas with_tree]. by rewrite length_map, length_seq.
  - intros k Hk. rewrite (final_tree_lookup randint app h g) by lia.
    unfold table_row. rewrite Hnone. cbn [pcts_of P50 P80 P85 P90 List.app map].
    do 3 f_equal. lia.
  - unfold final. cbn [canvas with_canvas]. rewrite Hnone.
    cbn [pcts_of P50 P80 P85 P90 List.app]. by rewrite curves_no_percentiles.
Qed.




End Claims.

(** * Instances

    A concrete generator, a linear congruential one, and the sample of the
    program's help text give closed instances of the theorems above. *)

Lemma lcg_range (n : nat) (g : Z) : (0 < n)%nat → ((lcg n g).1 < n)%nat.
Proof.
  intros Hn. unfold lcg. cbn [fst].
  pose proof (Z.mod_pos_bound (g / 65536) (Z.of_nat n) ltac:(lia)). lia.
Qed.

Ltac demo_valid :=
  unfold valid_input; repeat split; vm_compute; (reflexivity || discriminate).

(** The worked example of the help text. *)
Example cumsum_help_text :
  np.cumsum [6; 8; 7; 5; 9]%Q = [6; 14; 21; 26; 35]%Q.
Proof. reflexivity. Qed.

Example percentile_help_text :
  (pctl sample_history 50 == 7)%Q
  ∧ (pctl sample_history 80 == 8.2)%Q
  ∧ (pctl sample_history 85 == 8.4)%Q
  ∧ (pctl sample_history 100 == 9)%Q
  ∧ np.percentile sample_history 101 = Raise ValueError.
Proof. repeat split; vm_compute; reflexivity. Qed.

Example format_2f_examples :
  map format_2f [7.3; 8.125; 35; -0.001; 1234.5]%Q
  = ["7.30"; "8.12"; "35.00"; "-0.00"; "1234.50"].
Proof. vm_compute. reflexivity. Qed.

Example effective_history_examples :
  effective_history sample_history 2 = [5; 9]%Q
  ∧ effective_history sample_history 5 = sample_history
  ∧ effective_history sample_history 1000 = sample_history
  ∧ effective_history sample_history 0 = sample_history
  ∧ effective_history sample_history (-2) = [7; 5; 9]%Q
  ∧ effective_history sample_history (-9) = [].
Proof. repeat split. Qed.

(** A whole run: 10000 trials of two draws each. *)
Example run_demo :
  (let '(r, (app', _)) := run_simulation lcg (demo 2 10000 1000 boxes, 42) in
   (r, tree app',
    (λ fig, (fig_positions fig,
             map Qred <$> fig_curves fig !! "P50",
             map Qred <$> fig_curves fig !! "P80",
             map Qred <$> fig_curves fig !! "P85",
             map Qred <$> fig_curves fig !! "P90")) <$> canvas app'))
  = (Ok Completed,
     [[CInt 1; CStr "7.00"; CStr "9.00"; CStr "9.00"];
      [CInt 2; CStr "14.00"; CStr "16.00"; CStr "17.00"]],
     Some ([1; 2], Some [7; 14]%Q, Some [9; 16]%Q, None, Some [9; 17]%Q)).
Proof. vm_compute. reflexivity. Qed.






(** The boundary values of the configuration check. *)
Lemma config_check_witness :
  run_simulation lcg (demo 0 10000 1000 boxes, 42)
    = (Ok InvalidConfig, (demo 0 10000 1000 boxes, 42))
  ∧ run_simulation lcg (demo 3 9999 1000 boxes, 42)
    = (Ok InvalidConfig, (demo 3 9999 1000 boxes, 42))
  ∧ run_simulation lcg (demo 3 30001 1000 boxes, 42)
    = (Ok InvalidConfig, (demo 3 30001 1000 boxes, 42))
  ∧ (run_simulation lcg (demo 3 10000 1000 boxes, 42)).1 ≠ Ok InvalidConfig
  ∧ (run_simulation lcg (demo 3 30000 1000 boxes, 42)).1 ≠ Ok InvalidConfig.
Proof.
  split; [|split; [|split; [|split]]].
  - apply (proj1 (config_check lcg (demo 0 10000 1000 boxes) sample_history 42 eq_refl)).
    left. cbn. lia.
  - apply (proj1 (config_check lcg (demo 3 9999 1000 boxes) sample_history 42 eq_refl)).
    right. left. cbn. lia.
  - apply (proj1 (config_check lcg (demo 3 30001 1000 boxes) sample_history 42 eq_refl)).
    right. right. cbn. lia.
  - apply (proj2 (config_check lcg (demo 3 10000 1000 boxes) sample_history 42 eq_refl));
      cbn; lia.
  - apply (proj2 (config_check lcg (demo 3 30000 1000 boxes) sample_history 42 eq_refl));
      cbn; lia.
Defined.

(** Too short a window, and no history at all. *)
Lemma short_history_rejected_witness :
  run_simulation lcg (demo 3 10000 2 boxes, 42)
    = (Ok (InsufficientData 2 3), (demo 3 10000 2 boxes, 42))
  ∧ run_simulation lcg (App (Some []) 1 10000 1000 boxes [] None, 42)
    = (Ok (InsufficientData 0 1), (App (Some []) 1 10000 1000 boxes [] None, 42)).
Proof.
  split.
  - apply (short_history_rejected lcg (demo 3 10000 2 boxes) sample_history 42);
      [reflexivity | cbn; lia | cbn; lia | right; vm_compute; reflexivity].
  - apply (short_history_rejected lcg (App (Some []) 1 10000 1000 boxes [] None) [] 42);
      [reflexivity | cbn; lia | cbn; lia | left; reflexivity].
Defined.

(** With a trial count out of bounds an empty history ends with the
    "Invalid N or simulation count." box, not with "Not enough data": the
    configuration check comes first. *)
Lemma short_history_counterexample :
  1 <= num_backlog (App (Some []) 1 9999 1000 boxes [] None)
  ∧ effective_history [] (sample_size (App (Some []) 1 9999 1000 boxes [] None)) = []
  ∧ run_simulation lcg (App (Some []) 1 9999 1000 boxes [] None, 42)
    = (Ok InvalidConfig, (App (Some []) 1 9999 1000 boxes [] None, 42))
  ∧ run_simulation lcg (App (Some []) 1 9999 1000 boxes [] None, 42)
    ≠ (Ok (InsufficientData 0 1), (App (Some []) 1 9999 1000 boxes [] None, 42)).
Proof.
  split; [cbn; lia|]. split; [reflexivity|].
  split; [reflexivity | discriminate].
Qed.



Lemma no_percentile_requested_witness :
  ∃ (app' : MonteCarloApp) (g' : Z),
    run_simulation lcg (demo 3 10000 1000 (PctVars false false false false), 42)
    = (Ok Completed, (app', g'))
    ∧ requested (items (PctVars false false false false)) = Ok []
    ∧ length (tree app') = 3%nat
    ∧ (∀ k : nat, (1 ≤ k ≤ 3)%nat → tree app' !! (k - 1)%nat = Some [CInt (Z.of_nat k)])
    ∧ canvas app' = Some (Figure [1; 2; 3] ∅).
Proof.
  apply (no_percentile_requested lcg lcg_range
           (demo 3 10000 1000 (PctVars false false false false)) sample_history 42).
  - demo_valid.
  - reflexivity.
Defined.

(** * Further properties of the program *)

(** ** How a run ends *)

Section Outcomes.

Context {G : Type}.
Variable randint : nat → G → nat * G.

Lemma run_no_file (app : MonteCarloApp) (g : G) :
  cycle_times app = None →
  run_simulation randint (app, g) = (Ok NoFile, (app, g)).
Proof.
  intros Hfile. unfold run_simulation, mbind, M_bind, self. cbn [fst].
  by rewrite Hfile.
Qed.

(** The four ways a run can go, by the three checks of lines 95-110. *)
Lemma run_checks (app : MonteCarloApp) :
  cycle_times app = None
  ∨ (∃ h, cycle_times app = Some h
          ∧ (num_backlog app <= 0 ∨ num_sims app < 10000 ∨ 30000 < num_sims app))
  ∨ (∃ h, cycle_times app = Some h
          ∧ 1 <= num_backlog app ∧ 10000 <= num_sims app <= 30000
          ∧ len (effective_history h (sample_size app)) < num_backlog app)
  ∨ (∃ h, valid_input app h).
Proof.
  destruct (cycle_times app) as [h|] eqn:Hfile; [|by left].
  right.
  destruct (Z.le_gt_cases (num_backlog app) 0); [left; exists h; split; [done|by left]|].
  destruct (Z.lt_ge_cases (num_sims app) 10000);
    [left; exists h; split; [done | right; by left]|].
  destruct (Z.lt_ge_cases 30000 (num_sims app));
    [left; exists h; split; [done | right; by right]|].
  right.
  destruct (Z.lt_ge_cases (len (effective_history h (sample_size app))) (num_backlog app)).
  - left. exists h. repeat split; (done || lia).
  - right. exists h. unfold valid_input. rewrite Hfile. repeat split; (done || lia).
Qed.

(** X1.  A run that does not complete changes nothing: the table, the plot and
    the generator are as before, and what it reports is decided by the
    first check that fails. *)
Theorem failed_run_changes_nothing (app : MonteCarloApp) (g : G)
    (o : outcome) (σ : state) :
  run_simulation randint (app, g) = (Ok o, σ) →
  o ≠ Completed →
  σ = (app, g)
  ∧ (o = NoFile ↔ cycle_times app = None)
  ∧ (o = InvalidConfig ↔
       is_Some (cycle_times app)
       ∧ (num_backlog app <= 0 ∨ num_sims app < 10000 ∨ 30000 < num_sims app)).
Proof.
  intros Hrun Hfail.
  destruct (run_checks app) as [Hnone|[(h & Hfile & Hbad)|[(h & Hfile & HN & HT & Hshort)|(h & Hvalid)]]].
  - rewrite run_no_file in Hrun by done. simplify_eq.
    split; [done|]. split; [done|]. split; [done|].
    intros [[h Hh] _]. congruence.
  - rewrite (run_invalid_config randint app h g) in Hrun by done. simplify_eq.
    split; [done|]. split; [split; [done | congruence]|].
    split; [by intros _; split; [eexists|] | done].
  - rewrite (run_insufficient_data randint app h g) in Hrun by done. simplify_eq.
    split; [done|]. split; [split; [done | congruence]|].
    split; [done|]. intros [_ Hbad]. lia.
  - destruct Hvalid as (Hfile & HN & HT & Hlen).
    by pose proof (run_checks_passed randint app h g _ _ Hfile HN HT Hlen Hrun).
Qed.

Hypothesis randint_range :
  ∀ (n : nat) (g : G), (0 < n)%nat → ((randint n g).1 < n)%nat.


(** X3.  A run fills the table exactly on a valid input. *)
Theorem run_completes_iff_valid (app : MonteCarloApp) (g : G) :
  (run_simulation randint (app, g)).1 = Ok Completed ↔ ∃ h, valid_input app h.
Proof.
  split.
  - intros Hrun.
    destruct (run_checks app) as [Hnone|[(h & Hfile & Hbad)|[(h & Hfile & HN & HT & Hshort)|Hvalid]]].
    + by rewrite run_no_file in Hrun.
    + by rewrite (run_invalid_config randint app h g) in Hrun.
    + by rewrite (run_insufficient_data randint app h g) in Hrun.
    + done.
  - intros [h Hvalid].
    by rewrite (run_simulation_completed randint randint_range app h g).
Qed.

(** X4.  A completed run replaces the table and the plot and touches nothing
    else: whatever table and plot were there before, the run leaves the
    same ones, and the loaded data and the parameters stay as they
    were. *)
Theorem run_replaces_results (app : MonteCarloApp) (h : list Q) (g : G)
    (old_tree : list (list cell)) (old_canvas : option figure) :
  valid_input app h →
  ∃ (app' : MonteCarloApp) (g' : G),
    run_simulation randint (app, g) = (Ok Completed, (app', g'))
    ∧ run_simulation randint (with_canvas (with_tree app old_tree) old_canvas, g)
      = (Ok Completed, (app', g'))
    ∧ cycle_times app' = cycle_times app
    ∧ num_backlog app' = num_backlog app
    ∧ num_sims app' = num_sims app
    ∧ sample_size app' = sample_size app
    ∧ percentiles app' = percentiles app.
Proof.
  intros Hvalid. eexists _, _.
  split; [by apply (run_simulation_completed randint randint_range app h g)|].
  split; [|by destruct app].
  rewrite (run_simulation_completed randint randint_range _ h g)
    by (by destruct app).
  by destruct app.
Qed.

End Outcomes.

(** ** Bounds on the forecasts *)






Section Bounds.

Context {G : Type}.
Variable randint : nat → G → nat * G.
Hypothesis randint_range :
  ∀ (n : nat) (g : G), (0 < n)%nat → ((randint n g).1 < n)%nat.







End Bounds.

(** ** The plot and the table headings *)

Lemma dom_add_forecasts m pcts pos (pd : gmap string (list Q)) :
  dom (add_forecasts m pcts pos pd) = dom pd.
Proof.
  unfold add_forecasts. revert pd. induction pcts as [|p pcts IH]; intros pd; [done|].
  cbn [foldl]. by rewrite IH, dom_alter_L.
Qed.

Lemma dom_plot_data_init (pcts : list Z) :
  dom (plot_data_init pcts) = list_to_set (fmt_label <$> pcts).
Proof.
  unfold plot_data_init.
  assert (∀ d : gmap string (list Q),
            dom (foldl (λ d p, <[fmt_label p := []]> d) d pcts)
            = list_to_set (fmt_label <$> pcts) ∪ dom d) as Hgen.
  { induction pcts as [|p pcts IH]; intros d; cbn [foldl].
    - by rewrite fmap_nil, list_to_set_nil, (left_id_L ∅ (∪)).
    - rewrite IH, dom_insert_L, fmap_cons, list_to_set_cons.
      by rewrite (assoc_L (∪)), (comm_L (∪) (list_to_set (fmt_label <$> pcts))). }
  by rewrite Hgen, dom_empty_L, (right_id_L ∅ (∪)).
Qed.

Lemma dom_curves (m : list (list Q)) (pcts : list Z) (n : nat) :
  dom (curves m pcts n) = list_to_set (fmt_label <$> pcts).
Proof.
  unfold curves. rewrite <- dom_plot_data_init.
  generalize (plot_data_init pcts). generalize 0%nat.
  induction n as [|n IH]; intros start pd; [done|].
  cbn [seq foldl]. by rewrite IH, dom_add_forecasts.
Qed.

Lemma ticked_labels (v : pct_vars) (label : string) :
  label ∈ fmt_label <$> pcts_of v ↔ (label, true) ∈ items v.
Proof.
  assert (fmt_label <$> pcts_of v
          = omap (λ it : string * bool, if it.2 then Some it.1 else None) (items v)) as ->
    by (destruct v as [[] [] [] []]; reflexivity).
  rewrite list_elem_of_omap. split.
  - intros ([l b] & Hin & Hf). destruct b; simpl in Hf; by simplify_eq.
  - intros Hin. by exists (label, true).
Qed.

Lemma columns_lookup (v : pct_vars) (j : nat) (heading : string) :
  columns v !! S j = Some heading ↔ ["P50"; "P80"; "P85"; "P90"] !! j = Some heading.
Proof. done. Qed.

Lemma effective_history_suffix (cycle_times : list Q) (hist_n : Z) :
  effective_history cycle_times hist_n `suffix_of` cycle_times.
Proof.
  unfold effective_history, slice_from.
  destruct (hist_n <? len cycle_times); [apply suffix_drop | done].
Qed.

Lemma len_effective_history (cycle_times : list Q) (hist_n : Z) :
  len (effective_history cycle_times hist_n)
  = if 1 <=? hist_n then Z.min hist_n (len cycle_times)
    else Z.max 0 (len cycle_times + hist_n).
Proof.
  destruct (Z.leb_spec 1 hist_n) as [HK|HK].
  - rewrite effective_history_positive by done.
    destruct (Z.ltb_spec hist_n (len cycle_times)) as [Hlt|Hge]; [|lia].
    unfold len in *. rewrite length_last_elements; lia.
  - destruct (decide (hist_n = 0)) as [->|Hne].
    + rewrite effective_history_zero. unfold len. lia.
    + rewrite effective_history_negative by lia.
      unfold len. rewrite length_drop. lia.
Qed.

(** X7.  The effective history is always an end piece of the loaded history,
    never reordered or changed, and its length depends on the window size
    [K] alone: [min(K, len)] values for [K >= 1], all of them for
    [K = 0], and [len - |K|] (or none) for [K < 0]. *)
Theorem window_is_suffix (cycle_times : list Q) (hist_n : Z) :
  effective_history cycle_times hist_n `suffix_of` cycle_times
  ∧ len (effective_history cycle_times hist_n)
    = if 1 <=? hist_n then Z.min hist_n (len cycle_times)
      else Z.max 0 (len cycle_times + hist_n).
Proof. split; [apply effective_history_suffix | apply len_effective_history]. Qed.

Section Window.

Context {G : Type}.
Variable randint : nat → G → nat * G.

(** X8.  A backlog larger than a positive window is always rejected, however
    many values the file has: with [1 <= K < N] the run reports not
    enough data, with [min(K, len)] values at hand. *)
Theorem backlog_above_window_rejected (app : MonteCarloApp) (h : list Q) (g : G) :
  cycle_times app = Some h →
  10000 <= num_sims app <= 30000 →
  1 <= sample_size app → sample_size app < num_backlog app →
  run_simulation randint (app, g)
  = (Ok (InsufficientData (Z.min (sample_size app) (len h)) (num_backlog app)), (app, g)).
Proof.
  intros Hfile HT HK HN.
  pose proof (len_effective_history h (sample_size app)) as Hlen.
  destruct (Z.leb_spec 1 (sample_size app)); [|lia].
  rewrite <- Hlen. apply run_insufficient_data; [done | lia | done | lia].
Qed.

Hypothesis randint_range :
  ∀ (n : nat) (g : G), (0 < n)%nat → ((randint n g).1 < n)%nat.

(** X9.  A run reads the loaded values through the window only: two loaded
    histories with the same effective history give the same outcome, the
    same table, the same plot and the same generator state. *)
Theorem run_reads_window_only (app : MonteCarloApp) (h1 h2 : list Q) (g : G) :
  cycle_times app = Some h1 →
  effective_history h1 (sample_size app) = effective_history h2 (sample_size app) →
  ∃ (o : outcome) (app1 app2 : MonteCarloApp) (g' : G),
    run_simulation randint (app, g) = (Ok o, (app1, g'))
    ∧ run_simulation randint (with_cycle_times app h2, g) = (Ok o, (app2, g'))
    ∧ tree app1 = tree app2
    ∧ canvas app1 = canvas app2.
Proof.
  intros Hfile Heff. set (app2 := with_cycle_times app h2).
  assert (cycle_times app2 = Some h2) as Hfile2 by done.
  destruct (run_checks app) as [Hnone|[(h & Hh & Hbad)|[(h & Hh & HN & HT & Hshort)|(h & Hvalid)]]].
  - congruence.
  - eexists _, _, _, _.
    split; [by apply (run_invalid_config randint app h g)|].
    split; [by apply (run_invalid_config randint app2 h2 g)|]. done.
  - assert (h = h1) as -> by congruence.
    exists (InsufficientData (len (effective_history h1 (sample_size app))) (num_backlog app)),
           app, app2, g.
    split; [by apply (run_insufficient_data randint app h1 g)|].
    split; [|done]. rewrite Heff.
    apply (run_insufficient_data randint app2 h2 g); [done..|].
    change (sample_size app2) with (sample_size app).
    change (num_backlog app2) with (num_backlog app). by rewrite <- Heff.
  - assert (h = h1) as -> by (destruct Hvalid; congruence).
    assert (valid_input app2 h2) as Hvalid2.
    { destruct Hvalid as (_ & HN & HT & Hlen). unfold valid_input.
      split; [done|]. split; [done|]. split; [done|].
      change (sample_size app2) with (sample_size app). by rewrite <- Heff. }
    eexists _, _, _, _.
    split; [by apply (run_simulation_completed randint randint_range app h1 g)|].
    assert (matrix_of randint app2 h2 g = matrix_of randint app h1 g) as Hm.
    { unfold matrix_of. change (sample_size app2) with (sample_size app).
      by rewrite Heff. }
    split.
    + rewrite (run_simulation_completed randint randint_range app2 h2 g Hvalid2).
      change (sample_size app2) with (sample_size app).
      change (num_sims app2) with (num_sims app).
      change (num_backlog app2) with (num_backlog app).
      by rewrite Hm, Heff.
    + done.
Qed.

End Window.

Section Display.

Context {G : Type}.
Variable randint : nat → G → nat * G.
Hypothesis randint_range :
  ∀ (n : nat) (g : G), (0 < n)%nat → ((randint n g).1 < n)%nat.

(** X10.  The plot of a completed run: the positions are 1..N, there is one
    curve per ticked box and no other, under the label of the box, and
    every curve has one value per position. *)
Theorem plot_well_formed (app : MonteCarloApp) (h : list Q) (g : G) :
  valid_input app h →
  ∃ (app' : MonteCarloApp) (g' : G) (fig : figure),
    run_simulation randint (app, g) = (Ok Completed, (app', g'))
    ∧ canvas app' = Some fig
    ∧ fig_positions fig = map Z.of_nat (seq 1 (Z.to_nat (num_backlog app)))
    ∧ (∀ label : string,
         is_Some (fig_curves fig !! label) ↔ (label, true) ∈ items (percentiles app))
    ∧ ∀ (label : string) (values : list Q),
        fig_curves fig !! label = Some values →
        length values = length (fig_positions fig).
Proof.
  intros Hvalid. eexists _, _, _.
  split; [by apply run_simulation_completed|].
  split; [done|]. cbn [fig_positions fig_curves].
  split; [done|]. split.
  - intros label. rewrite <- ticked_labels, <- elem_of_dom, dom_curves.
    by rewrite elem_of_list_to_set.
  - intros label values Hl.
    assert (label ∈ fmt_label <$> pcts_of (percentiles app)) as Hin.
    { rewrite <- (elem_of_list_to_set (C:=gset string)).
      rewrite <- (dom_curves (matrix_of randint app h g) _ (Z.to_nat (num_backlog app))).
      apply elem_of_dom. by eexists. }
    apply list_elem_of_fmap in Hin as (p & -> & Hp).
    rewrite curves_lookup in Hl by (apply pcts_of_labels || done).
    simplify_eq. by rewrite !length_map, !length_seq.
Qed.

(** X11.  What the table shows.  The headings are fixed: "Position", "P50",
    "P80", "P85", "P90".  A row shows its position under "Position", the
    forecast of the [j]-th requested percentile under the [j]-th of the
    four percentile headings, whichever percentile that is, and nothing
    under the headings that are left. *)
Theorem table_display (app : MonteCarloApp) (h : list Q) (g : G) :
  valid_input app h →
  ∃ (app' : MonteCarloApp) (g' : G) (requested_pcts : list Z) (fig : figure),
    run_simulation randint (app, g) = (Ok Completed, (app', g'))
    ∧ requested (items (percentiles app)) = Ok requested_pcts
    ∧ canvas app' = Some fig
    ∧ ∀ k : nat, (1 ≤ k ≤ Z.to_nat (num_backlog app))%nat →
        ∃ row : list cell,
          tree app' !! (k - 1)%nat = Some row
          ∧ shown (columns (percentiles app)) row !! 0%nat
            = Some ("Position", Some (CInt (Z.of_nat k)))
          ∧ (∀ (j : nat) (heading : string),
               ["P50"; "P80"; "P85"; "P90"] !! j = Some heading →
               match requested_pcts !! j with
               | Some p =>
                   ∃ (values : list Q) (val : Q),
                     fig_curves fig !! fmt_label p = Some values
                     ∧ values !! (k - 1)%nat = Some val
                     ∧ shown (columns (percentiles app)) row !! S j
                       = Some (heading, Some (CStr (format_2f val)))
               | None =>
                   shown (columns (percentiles app)) row !! S j = Some (heading, None)
               end).
Proof.
  intros Hvalid. eexists _, _, _, _.
  split; [by apply run_simulation_completed|].
  split; [apply requested_items|].
  split; [done|].
  intros k Hk. set (m := matrix_of randint app h g).
  exists (table_row m (pcts_of (percentiles app)) (k - 1)).
  split; [apply (final_tree_lookup randint app h g); lia|].
  split.
  { unfold shown, columns, table_row. cbn. do 4 f_equal. lia. }
  intros j heading Hj. apply columns_lookup with (v := percentiles app) in Hj.
  unfold shown. rewrite list_lookup_imap, Hj. cbn [fmap option_fmap option_map].
  destruct (pcts_of (percentiles app) !! j) as [p|] eqn:Hp.
  - exists (map (λ pos, fc m pos p) (seq 0 (Z.to_nat (num_backlog app)))), (fc m (k - 1)%nat p).
    cbn [fig_curves].
    split; [apply curves_lookup; [apply pcts_of_labels | by eapply list_elem_of_lookup_2]|].
    split; [rewrite list_lookup_fmap, lookup_seq_lt by lia; done|].
    by rewrite (table_row_lookup m _ _ j p).
  - do 2 f_equal. unfold table_row.
    change ((?x :: ?l) !! S j) with (l !! j).
    by rewrite list_lookup_fmap, Hp.
Qed.

(** X12.  With "P50" unticked and another box ticked, every row shows under the
    heading "P50" the forecast of a percentile that is not 50: the first
    ticked one. *)
Theorem heading_mismatch (app : MonteCarloApp) (h : list Q) (g : G)
    (p : Z) (rest : list Z) :
  valid_input app h →
  P50 (percentiles app) = false →
  requested (items (percentiles app)) = Ok (p :: rest) →
  p ≠ 50
  ∧ ∃ (app' : MonteCarloApp) (g' : G) (fig : figure) (values : list Q),
      run_simulation randint (app, g) = (Ok Completed, (app', g'))
      ∧ canvas app' = Some fig
      ∧ fig_curves fig !! fmt_label p = Some values
      ∧ ∀ k : nat, (1 ≤ k ≤ Z.to_nat (num_backlog app))%nat →
          ∃ (row : list cell) (val : Q),
            tree app' !! (k - 1)%nat = Some row
            ∧ values !! (k - 1)%nat = Some val
            ∧ shown (columns (percentiles app)) row !! 1%nat
              = Some ("P50", Some (CStr (format_2f val))).
Proof.
  intros Hvalid Hno Hreq.
  assert (pcts_of (percentiles app) = p :: rest) as Hpcts.
  { pose proof (requested_items (percentiles app)) as Hr. congruence. }
  split.
  { destruct (percentiles app) as [[] [] [] []]; simpl in Hno; simplify_eq;
      cbv in Hpcts; by simplify_eq. }
  set (m := matrix_of randint app h g).
  eexists _, _, _, (map (λ pos, fc m pos p) (seq 0 (Z.to_nat (num_backlog app)))).
  split; [by apply run_simulation_completed|].
  split; [done|]. cbn [fig_curves].
  split.
  { apply curves_lookup; [apply pcts_of_labels|]. rewrite Hpcts. by left. }
  intros k Hk.
  exists (table_row m (pcts_of (percentiles app)) (k - 1)), (fc m (k - 1)%nat p).
  split; [apply (final_tree_lookup randint app h g); lia|].
  split; [rewrite list_lookup_fmap, lookup_seq_lt by lia; done|].
  unfold shown. rewrite list_lookup_imap.
  change (columns (percentiles app) !! 1%nat) with (Some "P50").
  cbn [fmap option_fmap option_map].
  rewrite (table_row_lookup m _ _ 0%nat p); [done|]. by rewrite Hpcts.
Qed.

End Display.

(** ** Loading a file *)

Lemma lower_app (a b : string) : lower (a +:+ b) = lower a +:+ lower b.
Proof. induction a as [|c a IH]; simpl; [done|]. by rewrite IH. Qed.

Lemma endswith_app (a b : string) : endswith (a +:+ b) b = true.
Proof.
  induction a as [|c a IH].
  - change ("" +:+ b) with b. destruct b; cbn [endswith]; by rewrite String.eqb_refl.
  - change (String c a +:+ b) with (String c (a +:+ b)). cbn [endswith].
    by rewrite IH, orb_true_r.
Qed.

Lemma endswith_inv (s suffix : string) :
  endswith s suffix = true → ∃ stem, s = stem +:+ suffix.
Proof.
  induction s as [|c s IH]; cbn [endswith]; intros H.
  - rewrite orb_false_r in H. apply String.eqb_eq in H as <-. by exists "".
  - apply orb_true_iff in H as [H|H].
    + apply String.eqb_eq in H as <-. by exists "".
    + destruct (IH H) as [stem ->]. by exists (String c stem).
Qed.





Section Loading.

Variable read_csv read_excel : string → string + list column.

(** X13.  A load that does not end with "Loaded" changes nothing: the data
    loaded before, the label, the table and the plot stay; and it ends
    as cancelled exactly when the dialog returned no path. *)
Theorem failed_load_changes_nothing (path : string) (w w' : window) (o : load_outcome) :
  load_excel read_csv read_excel path w = (o, w') →
  o ≠ Loaded →
  w' = w ∧ (o = Cancelled ↔ path = "").
Proof.
  unfold load_excel. intros Hload Hfail.
  destruct (String.eqb_spec path "") as [->|Hpath].
  { by simplify_eq. }
  assert (∀ o0, o0 ≠ Cancelled → (o0 = Cancelled ↔ path = "")) as Hiff
    by (intros o0 Ho; split; done).
  destruct (if endswith (lower path) ".csv" then read_csv path else read_excel path)
    as [e|df]; [simplify_eq; by split; [|apply Hiff]|].
  destruct (pandas.empty (pandas.select_dtypes_number df));
    [simplify_eq; by split; [|apply Hiff]|].
  destruct (pandas.select_dtypes_number df); simplify_eq; by split; [|apply Hiff].
Qed.



(** X15.  The extension is compared without regard to letter case: a path that
    ends in ".csv", ".CSV", ".Csv" and so on is read with [read_csv] and
    never with [read_excel]. *)
Theorem csv_extension_any_case (stem ext : string) (w : window)
    (other_excel : string → string + list column) :
  lower ext = ".csv" →
  load_excel read_csv read_excel (stem +:+ ext) w
  = load_excel read_csv other_excel (stem +:+ ext) w.
Proof.
  intros Hext. unfold load_excel.
  by rewrite lower_app, Hext, endswith_app.
Qed.

End Loading.

Section LoadThenRun.

Context {G : Type}.
Variable randint : nat → G → nat * G.
Hypothesis randint_range :
  ∀ (n : nat) (g : G), (0 < n)%nat → ((randint n g).1 < n)%nat.
Variable read_csv read_excel : string → string + list column.


End LoadThenRun.

(** ** Instances of the further properties *)

Lemma failed_run_changes_nothing_witness :
  (demo 0 10000 1000 boxes, 42) = (demo 0 10000 1000 boxes, 42)
  ∧ (InvalidConfig = NoFile ↔ cycle_times (demo 0 10000 1000 boxes) = None)
  ∧ (InvalidConfig = InvalidConfig ↔
       is_Some (cycle_times (demo 0 10000 1000 boxes))
       ∧ (num_backlog (demo 0 10000 1000 boxes) <= 0
          ∨ num_sims (demo 0 10000 1000 boxes) < 10000
          ∨ 30000 < num_sims (demo 0 10000 1000 boxes))).
Proof.
  apply (failed_run_changes_nothing lcg (demo 0 10000 1000 boxes) 42 InvalidConfig
           (demo 0 10000 1000 boxes, 42)); [reflexivity | discriminate].
Defined.


Lemma run_completes_iff_valid_witness :
  (run_simulation lcg (demo_app, 42)).1 = Ok Completed ↔ ∃ h, valid_input demo_app h.
Proof. apply (run_completes_iff_valid lcg lcg_range demo_app 42). Defined.

Lemma run_replaces_results_witness :
  ∃ (app' : MonteCarloApp) (g' : Z),
    run_simulation lcg (demo_app, 42) = (Ok Completed, (app', g'))
    ∧ run_simulation lcg (with_canvas (with_tree demo_app [[CInt 7; CStr "1.00"]]) None, 42)
      = (Ok Completed, (app', g'))
    ∧ cycle_times app' = cycle_times demo_app
    ∧ num_backlog app' = num_backlog demo_app
    ∧ num_sims app' = num_sims demo_app
    ∧ sample_size app' = sample_size demo_app
    ∧ percentiles app' = percentiles demo_app.
Proof.
  apply (run_replaces_results lcg lcg_range demo_app sample_history 42).
  demo_valid.
Defined.



Lemma plot_well_formed_witness :
  ∃ (app' : MonteCarloApp) (g' : Z) (fig : figure),
    run_simulation lcg (demo_app, 42) = (Ok Completed, (app', g'))
    ∧ canvas app' = Some fig
    ∧ fig_positions fig = map Z.of_nat (seq 1 (Z.to_nat (num_backlog demo_app)))
    ∧ (∀ label : string,
         is_Some (fig_curves fig !! label) ↔ (label, true) ∈ items (percentiles demo_app))
    ∧ ∀ (label : string) (values : list Q),
        fig_curves fig !! label = Some values →
        length values = length (fig_positions fig).
Proof.
  apply (plot_well_formed lcg lcg_range demo_app sample_history 42).
  demo_valid.
Defined.

Lemma table_display_witness :
  ∃ (app' : MonteCarloApp) (g' : Z) (requested_pcts : list Z) (fig : figure),
    run_simulation lcg (demo_app, 42) = (Ok Completed, (app', g'))
    ∧ requested (items (percentiles demo_app)) = Ok requested_pcts
    ∧ canvas app' = Some fig
    ∧ ∀ k : nat, (1 ≤ k ≤ Z.to_nat (num_backlog demo_app))%nat →
        ∃ row : list cell,
          tree app' !! (k - 1)%nat = Some row
          ∧ shown (columns (percentiles demo_app)) row !! 0%nat
            = Some ("Position", Some (CInt (Z.of_nat k)))
          ∧ (∀ (j : nat) (heading : string),
               ["P50"; "P80"; "P85"; "P90"] !! j = Some heading →
               match requested_pcts !! j with
               | Some p =>
                   ∃ (values : list Q) (val : Q),
                     fig_curves fig !! fmt_label p = Some values
                     ∧ values !! (k - 1)%nat = Some val
                     ∧ shown (columns (percentiles demo_app)) row !! S j
                       = Some (heading, Some (CStr (format_2f val)))
               | None =>
                   shown (columns (percentiles demo_app)) row !! S j = Some (heading, None)
               end).
Proof.
  apply (table_display lcg lcg_range demo_app sample_history 42).
  demo_valid.
Defined.

(** Only "P90" ticked: its forecasts stand under the heading "P50". *)
Lemma heading_mismatch_witness :
  90 ≠ 50
  ∧ ∃ (app' : MonteCarloApp) (g' : Z) (fig : figure) (values : list Q),
      run_simulation lcg (demo 3 10000 1000 only_p90, 42) = (Ok Completed, (app', g'))
      ∧ canvas app' = Some fig
      ∧ fig_curves fig !! fmt_label 90 = Some values
      ∧ ∀ k : nat, (1 ≤ k ≤ Z.to_nat (num_backlog (demo 3 10000 1000 only_p90)))%nat →
          ∃ (row : list cell) (val : Q),
            tree app' !! (k - 1)%nat = Some row
            ∧ values !! (k - 1)%nat = Some val
            ∧ shown (columns (percentiles (demo 3 10000 1000 only_p90))) row !! 1%nat
              = Some ("P50", Some (CStr (format_2f val))).
Proof.
  apply (heading_mismatch lcg lcg_range (demo 3 10000 1000 only_p90) sample_history 42 90 []).
  - demo_valid.
  - reflexivity.
  - reflexivity.
Defined.

(** A path that cannot be opened. *)
Lemma failed_load_changes_nothing_witness :
  sample_window = sample_window
  ∧ (FailedToLoad "No such file" = Cancelled ↔ "times.xlsx" = "").
Proof.
  apply (failed_load_changes_nothing sample_csv sample_excel "times.xlsx"
           sample_window sample_window (FailedToLoad "No such file"));
    [reflexivity | discriminate].
Defined.


Lemma csv_extension_any_case_witness :
  load_excel sample_csv sample_excel ("times" +:+ ".CSV") sample_window
  = load_excel sample_csv (λ _, inr []) ("times" +:+ ".CSV") sample_window.
Proof.
  apply (csv_extension_any_case sample_csv sample_excel "times" ".CSV" sample_window).
  reflexivity.
Defined.


Lemma backlog_above_window_rejected_witness :
  run_simulation lcg (demo 3 10000 2 boxes, 42)
  = (Ok (InsufficientData (Z.min (sample_size (demo 3 10000 2 boxes)) (len sample_history))
                          (num_backlog (demo 3 10000 2 boxes))),
     (demo 3 10000 2 boxes, 42)).
Proof.
  apply (backlog_above_window_rejected lcg (demo 3 10000 2 boxes) sample_history 42);
    [reflexivity | cbn; lia | cbn; lia | cbn; lia].
Defined.

(** Two files that differ before the window of three values. *)
Lemma run_reads_window_only_witness :
  ∃ (o : outcome) (app1 app2 : MonteCarloApp) (g' : Z),
    run_simulation lcg (demo 3 10000 3 boxes, 42) = (Ok o, (app1, g'))
    ∧ run_simulation lcg (with_cycle_times (demo 3 10000 3 boxes) [1; 7; 5; 9]%Q, 42)
      = (Ok o, (app2, g'))
    ∧ tree app1 = tree app2
    ∧ canvas app1 = canvas app2.
Proof.
  apply (run_reads_window_only lcg lcg_range (demo 3 10000 3 boxes) sample_history
           [1; 7; 5; 9]%Q 42); reflexivity.
Defined.
